(** * GLES2HardwareBuffer: buffer object life cycle and lock/map protocol

    A shallow embedding of [Ogre::GLES2HardwareBuffer]
    (RenderSystems/GLES2, OgreGLES2HardwareBuffer.cpp).  Every method is a
    computation in a state-and-failure monad over a [World] that holds the
    render system, the state cache manager, the driver's binding table and
    the sequence of calls made so far to the driver and to the state cache.
    The driver's answers (generated names, mapped addresses, the result of
    unmapping) are not chosen by the program: they come from an oracle
    carried by the world. *)

From stdpp Require Import base gmap strings list pretty.
From Stdlib Require Import ZArith Lia.
Open Scope Z_scope.

(** ** The GL interface *)

(** [GLenum], [GLuint], [GLbitfield], [GLboolean], [size_t] and addresses
    are all integers; the source does no arithmetic on them apart from the
    bitwise tests and the final pointer offset of [lockImpl]. *)
Abbreviation GLenum := Z (only parsing).
Abbreviation GLuint := Z (only parsing).
Abbreviation size_t := Z (only parsing).
Abbreviation pointer := Z (only parsing).

Definition NULL : pointer := 0.

(** The identifiers the source takes from headers that are not part of the
    sources under study: the build switch [OGRE_NO_GLES3_SUPPORT], the
    usage bits of [HardwareBuffer::Usage], the GL enumerants and
    [StringConverter::toString].  The model is parametric in all of them. *)
Class Build := {
  OGRE_NO_GLES3_SUPPORT : bool;
  HBU_STATIC : Z;
  HBU_WRITE_ONLY : Z;
  HBU_DISCARDABLE : Z;
  GL_MAP_READ_BIT_EXT : Z;
  GL_MAP_WRITE_BIT_EXT : Z;
  GL_MAP_INVALIDATE_RANGE_BIT_EXT : Z;
  GL_MAP_FLUSH_EXPLICIT_BIT_EXT : Z;
  GL_WRITE_ONLY_OES : GLenum;
  GL_STREAM_DRAW : GLenum;
  GL_STATIC_DRAW : GLenum;
  GL_DYNAMIC_DRAW : GLenum;
  GL_COPY_READ_BUFFER : GLenum;
  GL_COPY_WRITE_BUFFER : GLenum;
  GL_BUFFER_OBJECT_EXT : GLenum;
  StringConverter_toString : Z → string
}.

(** [HardwareBuffer::LockOptions].  The source names [HBL_DISCARD],
    [HBL_READ_ONLY] and [HBL_NO_OVERWRITE]; the two other members stand for
    every mode that is none of these. *)
Inductive LockOptions :=
| HBL_NORMAL
| HBL_DISCARD
| HBL_READ_ONLY
| HBL_NO_OVERWRITE
| HBL_WRITE_ONLY.

#[global] Instance LockOptions_eq_dec : EqDecision LockOptions.
Proof. solve_decision. Defined.

(** The driver entry points the source calls, with their arguments. *)
Inductive GLCall :=
| glGenBuffers (n : Z)
| glBindBuffer (target : GLenum) (buffer : GLuint)
| glLabelObjectEXT (type : GLenum) (object : GLuint) (length : Z) (label : string)
| glBufferData (target : GLenum) (size : Z) (data : pointer) (usage : GLenum)
| glBufferSubData (target : GLenum) (offset size : Z) (data : pointer)
| glMapBufferRangeEXT (target : GLenum) (offset length : Z) (access : Z)
| glMapBufferOES (target : GLenum) (access : GLenum)
| glFlushMappedBufferRangeEXT (target : GLenum) (offset length : Z)
| glUnmapBufferOES (target : GLenum)
| glCopyBufferSubData (readTarget writeTarget : GLenum) (readOffset writeOffset size : Z)
| glDeleteBuffers (n : Z) (buffer : GLuint).

(** What the buffer does to the outside, in program order: a driver call,
    a call into the state cache manager, or a [memcpy] on client memory. *)
Inductive Event :=
| GL (c : GLCall)
| Cache_bindGLBuffer (target : GLenum) (buffer : GLuint)
| Cache_deleteGLBuffer (target : GLenum) (buffer : GLuint)
| memcpy (dest src : pointer) (n : size_t).

Inductive ExceptionCodes :=
| ERR_INTERNAL_ERROR.

(** How a method can fail to return.  [null_dereference] marks an access
    through a null pointer: a method call through a null state cache
    manager, which the source does not guard against outside
    [destroyBuffer], or a [memcpy] given a null source or destination. *)
Inductive Failure :=
| OGRE_EXCEPT (code : ExceptionCodes) (description source : string)
| assertion_failed (message : string)
| null_dereference.

(** ** The world *)

Record World := {
  (** [GLES2RenderSystem::checkExtension] *)
  rs_extensions : string → bool;
  (** [getCapabilities()->hasCapability(RSC_DEBUG)] *)
  rs_debug : bool;
  (** [_getStateCacheManager()]: [None] once the cache is torn down,
      otherwise the cache's record of the buffer bound to each target *)
  rs_stateCache : option (gmap Z Z);
  (** the driver's answer to a call, given the events before it *)
  gl_driver : list Event → GLCall → Z;
  (** the buffer the driver really has bound to each target *)
  gl_bound : gmap Z Z;
  (** every event so far, oldest first *)
  trace : list Event
}.

Definition set_stateCache (c : option (gmap Z Z)) (w : World) : World :=
  {| rs_extensions := rs_extensions w; rs_debug := rs_debug w;
     rs_stateCache := c; gl_driver := gl_driver w;
     gl_bound := gl_bound w; trace := trace w |}.

Definition set_bound (b : gmap Z Z) (w : World) : World :=
  {| rs_extensions := rs_extensions w; rs_debug := rs_debug w;
     rs_stateCache := rs_stateCache w; gl_driver := gl_driver w;
     gl_bound := b; trace := trace w |}.

Definition add_event (e : Event) (w : World) : World :=
  {| rs_extensions := rs_extensions w; rs_debug := rs_debug w;
     rs_stateCache := rs_stateCache w; gl_driver := gl_driver w;
     gl_bound := gl_bound w; trace := trace w ++ [e] |}.

(** ** The monad: state that survives a failure *)

Definition M (A : Type) : Type := World → (Failure + A) * World.

Definition ret {A} (a : A) : M A := λ w, (inr a, w).

Definition bind {A B} (m : M A) (f : A → M B) : M B := λ w,
  match m w with
  | (inl e, w') => (inl e, w')
  | (inr a, w') => f a w'
  end.

(** The result type of a bind is known before its parts are read. *)
Arguments bind {A B} & m f.

Declare Scope M_scope.
Delimit Scope M_scope with M.
Bind Scope M_scope with M.
Notation "x ← y ; z" := (bind y (λ x, z))
  (at level 20, y at level 100, z at level 200, only parsing) : M_scope.
Notation "' x ← y ; z" := (bind y (λ x, z))
  (at level 20, x pattern, y at level 100, z at level 200, only parsing) : M_scope.
Notation "x ;; z" := (bind x (λ _, z))
  (at level 100, z at level 200, only parsing, right associativity) : M_scope.
Open Scope M_scope.

Definition throw {A} (e : Failure) : M A := λ w, (inl e, w).

Definition world : M World := λ w, (inr w, w).

Definition emit (e : Event) : M unit := λ w, (inr tt, add_event e w).

(** A statement guarded by an [if] without [else]. *)
Definition when {A} (cond : bool) (m : M A) : M unit :=
  if cond then m;; ret tt else ret tt.

(** What a computation run from a world returns, and the world it leaves. *)
Definition outcome {A} (m : M A) (w : World) : Failure + A := fst (m w).
Definition after {A} (m : M A) (w : World) : World := snd (m w).

(** ** The driver *)

(** The effect of a call on the driver's binding table: [glBindBuffer]
    sets the binding of its target, and deleting a buffer resets every
    binding that holds it to zero. *)
Definition driver_bind (c : GLCall) (b : gmap Z Z) : gmap Z Z :=
  match c with
  | glBindBuffer target buffer => <[target := buffer]> b
  | glDeleteBuffers _ buffer => (λ x, if bool_decide (x = buffer) then 0 else x) <$> b
  | _ => b
  end.

(** [OGRE_CHECK_GL_ERROR(call)]: issue the call and hand back its result
    (zero for a call that returns nothing). *)
Definition OGRE_CHECK_GL_ERROR (c : GLCall) : M Z := λ w,
  (inr (gl_driver w (trace w) c),
   set_bound (driver_bind c (gl_bound w)) (add_event (GL c) w)).

(** The binding table after a sequence of events, from a given table. *)
Definition replay (b : gmap Z Z) (evs : list Event) : gmap Z Z :=
  foldl (λ b e, match e with GL c => driver_bind c b | _ => b end) b evs.

(** The target a data call works on ([glBindBuffer] itself is not one). *)
Definition call_target (c : GLCall) : option GLenum :=
  match c with
  | glBufferData t _ _ _ => Some t
  | glBufferSubData t _ _ _ => Some t
  | glMapBufferRangeEXT t _ _ _ => Some t
  | glMapBufferOES t _ => Some t
  | glFlushMappedBufferRangeEXT t _ _ => Some t
  | glUnmapBufferOES t => Some t
  | _ => None
  end.

(** For every data call of a sequence of events, in order, the name of the
    buffer the driver had bound to the call's target when it was issued
    (zero when nothing was bound). *)
Fixpoint acted_on (b : gmap Z Z) (evs : list Event) : list GLuint :=
  match evs with
  | [] => []
  | GL c :: evs' =>
      match call_target c with
      | Some t => default 0 (b !! t) :: acted_on (driver_bind c b) evs'
      | None => acted_on (driver_bind c b) evs'
      end
  | _ :: evs' => acted_on b evs'
  end.

(** ** The state cache manager *)

(** Modelled from the spec: [GLES2StateCacheManager::bindGLBuffer] is not
    among the sources.  "bindBuffer(target, handle): idempotent, no-op if
    already bound to that target"; the cache "tracks which buffer object is
    currently bound to which target slot, to avoid redundant driver
    calls".  Called through a null manager it is a [null_dereference]. *)
Definition bindGLBuffer (target : GLenum) (buffer : GLuint) : M unit :=
  w ← world;
  match rs_stateCache w with
  | None => throw null_dereference
  | Some cache =>
      emit (Cache_bindGLBuffer target buffer);;
      if bool_decide (cache !! target = Some buffer) then ret tt
      else
        (λ w, (inr tt, set_stateCache (Some (<[target := buffer]> cache)) w));;
        OGRE_CHECK_GL_ERROR (glBindBuffer target buffer);;
        ret tt
  end.

(** Modelled from the spec: [GLES2StateCacheManager::deleteGLBuffer] is not
    among the sources.  "deleteBuffer(target, handle): evicts cache entry
    and deletes the underlying driver object". *)
Definition deleteGLBuffer (target : GLenum) (buffer : GLuint) : M unit :=
  w ← world;
  match rs_stateCache w with
  | None => throw null_dereference
  | Some cache =>
      emit (Cache_deleteGLBuffer target buffer);;
      (λ w, (inr tt,
             set_stateCache
               (Some (if bool_decide (cache !! target = Some buffer)
                      then delete target cache else cache)) w));;
      OGRE_CHECK_GL_ERROR (glDeleteBuffers 1 buffer);;
      ret tt
  end.

(** [mRenderSystem->_getStateCacheManager()]: whether there is a manager. *)
Definition _getStateCacheManager : M bool :=
  w ← world; ret (bool_decide (is_Some (rs_stateCache w))).

Definition checkExtension (name : string) : M bool :=
  w ← world; ret (rs_extensions w name).

Definition hasCapability_RSC_DEBUG : M bool :=
  w ← world; ret (rs_debug w).

(** Modelled from the spec: the [OgreAssert] macro is not among the
    sources.  A failed assertion is "a hard precondition failure (not a
    recoverable error)". *)
Definition OgreAssert (cond : bool) (message : string) : M unit :=
  if cond then ret tt else throw (assertion_failed message).

(** [memcpy(dest, src, n)] on client memory: the call is made, and it does
    not survive a null source or destination. *)
Definition call_memcpy (dest src : pointer) (n : size_t) : M unit :=
  emit (memcpy dest src n);;
  if bool_decide (dest = NULL) || bool_decide (src = NULL)
  then throw null_dereference
  else ret tt.

(** [static_cast<uint8*>(p) + n]: byte-pointer arithmetic, which wraps at
    the width of an address, 64 bits; adding zero leaves the pointer as
    the driver returned it. *)
Definition ptr_add (p : pointer) (n : size_t) : pointer :=
  if bool_decide (n = 0) then p else (p + n) mod 2 ^ 64.

(** ** The buffer *)

Record GLES2HardwareBuffer := {
  mTarget : GLenum;
  mSizeInBytes : size_t;
  mUsage : Z;
  mBufferId : GLuint
}.

Definition nonzero (z : Z) : bool := negb (z =? 0).

Section Model.
Context `{Build}.

Definition getGLUsage (usage : Z) : GLenum :=
  if nonzero (Z.land usage HBU_DISCARDABLE) then GL_STREAM_DRAW
  else if nonzero (Z.land usage HBU_STATIC) then GL_STATIC_DRAW
  else GL_DYNAMIC_DRAW.

(** [!OGRE_NO_GLES3_SUPPORT || checkExtension("GL_EXT_map_buffer_range")] *)
Definition hasMapBufferRange : M bool :=
  if negb OGRE_NO_GLES3_SUPPORT then ret true
  else checkExtension "GL_EXT_map_buffer_range".

Definition createBuffer (this : GLES2HardwareBuffer) : M GLES2HardwareBuffer :=
  id ← OGRE_CHECK_GL_ERROR (glGenBuffers 1);
  let this := {| mTarget := mTarget this; mSizeInBytes := mSizeInBytes this;
                 mUsage := mUsage this; mBufferId := id |} in
  if negb (nonzero (mBufferId this)) then
    throw (OGRE_EXCEPT ERR_INTERNAL_ERROR "Cannot create GL ES buffer"
             "GLES2HardwareBuffer::createBuffer")
  else
    bindGLBuffer (mTarget this) (mBufferId this);;
    debug ← hasCapability_RSC_DEBUG;
    when debug
      (OGRE_CHECK_GL_ERROR
         (glLabelObjectEXT GL_BUFFER_OBJECT_EXT (mBufferId this) 0
            ("Buffer #" +:+ StringConverter_toString (mBufferId this))));;
    OGRE_CHECK_GL_ERROR
      (glBufferData (mTarget this) (mSizeInBytes this) NULL (getGLUsage (mUsage this)));;
    ret this.

(** The constructor: the fields, then [createBuffer]. *)
Definition new_GLES2HardwareBuffer (target : GLenum) (sizeInBytes : size_t) (usage : Z)
  : M GLES2HardwareBuffer :=
  createBuffer {| mTarget := target; mSizeInBytes := sizeInBytes;
                  mUsage := usage; mBufferId := 0 |}.

Definition destroyBuffer (this : GLES2HardwareBuffer) : M unit :=
  stateCacheManager ← _getStateCacheManager;
  when stateCacheManager (deleteGLBuffer (mTarget this) (mBufferId this)).

Definition lockImpl (this : GLES2HardwareBuffer) (offset length : size_t)
    (options : LockOptions) : M pointer :=
  let access := 0 in
  bindGLBuffer (mTarget this) (mBufferId this);;
  let pBuffer := NULL in
  range ← hasMapBufferRange;
  '(pBuffer, offset) ←
    (if range then
       let access :=
         if nonzero (Z.land (mUsage this) HBU_WRITE_ONLY) then
           let access := GL_MAP_WRITE_BIT_EXT in
           let access := Z.lor access GL_MAP_FLUSH_EXPLICIT_BIT_EXT in
           if bool_decide (options = HBL_DISCARD) || bool_decide (options = HBL_NO_OVERWRITE)
           then Z.lor access GL_MAP_INVALIDATE_RANGE_BIT_EXT
           else access
         else if bool_decide (options = HBL_READ_ONLY) then GL_MAP_READ_BIT_EXT
         else Z.lor GL_MAP_READ_BIT_EXT GL_MAP_WRITE_BIT_EXT in
       pBuffer ← OGRE_CHECK_GL_ERROR
                   (glMapBufferRangeEXT (mTarget this) offset length access);
       ret (pBuffer, 0)
     else
       (* this branch exists only when OGRE_NO_GLES3_SUPPORT == 1 *)
       oes ← (if OGRE_NO_GLES3_SUPPORT then checkExtension "GL_OES_mapbuffer"
              else ret false);
       if oes then
         when (bool_decide (options = HBL_DISCARD) || bool_decide (options = HBL_NO_OVERWRITE))
           (OGRE_CHECK_GL_ERROR
              (glBufferData (mTarget this) (mSizeInBytes this) NULL
                 (getGLUsage (mUsage this))));;
         let access :=
           if nonzero (Z.land (mUsage this) HBU_WRITE_ONLY) then GL_WRITE_ONLY_OES
           else access in
         pBuffer ← OGRE_CHECK_GL_ERROR (glMapBufferOES (mTarget this) access);
         ret (pBuffer, offset)
       else ret (pBuffer, offset));
  if negb (nonzero pBuffer) then
    throw (OGRE_EXCEPT ERR_INTERNAL_ERROR "Buffer: Out of memory"
             "GLES2HardwareBuffer::lock")
  else ret (ptr_add pBuffer offset).

Definition unlockImpl (this : GLES2HardwareBuffer) (lockSize : size_t) : M unit :=
  bindGLBuffer (mTarget this) (mBufferId this);;
  hasMapBufferRange ← hasMapBufferRange;
  when (nonzero (Z.land (mUsage this) HBU_WRITE_ONLY) && hasMapBufferRange)
    (OGRE_CHECK_GL_ERROR (glFlushMappedBufferRangeEXT (mTarget this) 0 lockSize));;
  anyMapping ← (if hasMapBufferRange then ret true
                else checkExtension "GL_OES_mapbuffer");
  if anyMapping then
    mapped ← OGRE_CHECK_GL_ERROR (glUnmapBufferOES (mTarget this));
    if negb (nonzero mapped) then
      throw (OGRE_EXCEPT ERR_INTERNAL_ERROR "Buffer data corrupted, please reload"
               "GLES2HardwareBuffer::unlock")
    else ret tt
  else ret tt.

Definition readData (this : GLES2HardwareBuffer) (offset length : size_t)
    (pDest : pointer) : M unit :=
  range ← hasMapBufferRange;
  if range then
    srcData ← OGRE_CHECK_GL_ERROR
                (glMapBufferRangeEXT (mTarget this) offset length GL_MAP_READ_BIT_EXT);
    call_memcpy pDest srcData length;;
    mapped ← OGRE_CHECK_GL_ERROR (glUnmapBufferOES (mTarget this));
    if negb (nonzero mapped) then
      throw (OGRE_EXCEPT ERR_INTERNAL_ERROR "Buffer data corrupted, please reload"
               "GLES2HardwareBuffer::readData")
    else ret tt
  else
    throw (OGRE_EXCEPT ERR_INTERNAL_ERROR "Read hardware buffer is not supported"
             "GLES2HardwareBuffer::readData").

Definition writeData (this : GLES2HardwareBuffer) (offset length : size_t)
    (pSource : pointer) (discardWholeBuffer : bool) : M unit :=
  bindGLBuffer (mTarget this) (mBufferId this);;
  if bool_decide (offset = 0) && bool_decide (length = mSizeInBytes this) then
    OGRE_CHECK_GL_ERROR
      (glBufferData (mTarget this) (mSizeInBytes this) pSource (getGLUsage (mUsage this)));;
    ret tt
  else
    when discardWholeBuffer
      (OGRE_CHECK_GL_ERROR
         (glBufferData (mTarget this) (mSizeInBytes this) NULL (getGLUsage (mUsage this))));;
    OGRE_CHECK_GL_ERROR (glBufferSubData (mTarget this) offset length pSource);;
    ret tt.

Definition copyData (this : GLES2HardwareBuffer) (srcBufferId : GLuint)
    (srcOffset dstOffset length : size_t) (discardWholeBuffer : bool) : M unit :=
  if negb OGRE_NO_GLES3_SUPPORT then
    OGRE_CHECK_GL_ERROR (glBindBuffer (mTarget this) (mBufferId this));;
    OGRE_CHECK_GL_ERROR
      (glBufferData (mTarget this) length 0 (getGLUsage (mUsage this)));;
    OGRE_CHECK_GL_ERROR (glBindBuffer (mTarget this) 0);;
    OGRE_CHECK_GL_ERROR (glBindBuffer GL_COPY_READ_BUFFER srcBufferId);;
    OGRE_CHECK_GL_ERROR (glBindBuffer GL_COPY_WRITE_BUFFER (mBufferId this));;
    OGRE_CHECK_GL_ERROR
      (glCopyBufferSubData GL_COPY_READ_BUFFER GL_COPY_WRITE_BUFFER
         srcOffset dstOffset length);;
    OGRE_CHECK_GL_ERROR (glBindBuffer GL_COPY_READ_BUFFER 0);;
    OGRE_CHECK_GL_ERROR (glBindBuffer GL_COPY_WRITE_BUFFER 0);;
    ret tt
  else
    OgreAssert false "GLES3 needed".

End Model.

(** ** Wording of the specification, for comparison with the code *)

(** The error kinds of the specification are told apart by the message of
    the exception the source raises; the code is always
    [ERR_INTERNAL_ERROR]. *)
Definition AllocationError : Failure :=
  OGRE_EXCEPT ERR_INTERNAL_ERROR "Cannot create GL ES buffer"
    "GLES2HardwareBuffer::createBuffer".

Definition MappingError : Failure :=
  OGRE_EXCEPT ERR_INTERNAL_ERROR "Buffer: Out of memory" "GLES2HardwareBuffer::lock".

Definition CorruptionError (source : string) : Failure :=
  OGRE_EXCEPT ERR_INTERNAL_ERROR "Buffer data corrupted, please reload" source.

Definition UnsupportedOperationError : Failure :=
  OGRE_EXCEPT ERR_INTERNAL_ERROR "Read hardware buffer is not supported"
    "GLES2HardwareBuffer::readData".

Section Wording.
Context `{Build}.

(** "write-oriented usage": the usage flags contain [HBU_WRITE_ONLY]. *)
Definition write_oriented (usage : Z) : Prop := Z.land usage HBU_WRITE_ONLY ≠ 0.

(** The access flags of the range-mapping path as the specification words
    them: write-oriented usage gives write access plus explicit flush, and
    range invalidation on top for discard-and-replace or no-overwrite;
    otherwise read-only mode gives read access only, and any other mode
    read plus write access. *)
Definition spec_range_access (usage : Z) (mode : LockOptions) : Z :=
  if decide (write_oriented usage) then
    match mode with
    | HBL_DISCARD | HBL_NO_OVERWRITE =>
        Z.lor (Z.lor GL_MAP_WRITE_BIT_EXT GL_MAP_FLUSH_EXPLICIT_BIT_EXT)
          GL_MAP_INVALIDATE_RANGE_BIT_EXT
    | _ => Z.lor GL_MAP_WRITE_BIT_EXT GL_MAP_FLUSH_EXPLICIT_BIT_EXT
    end
  else
    match mode with
    | HBL_READ_ONLY => GL_MAP_READ_BIT_EXT
    | _ => Z.lor GL_MAP_READ_BIT_EXT GL_MAP_WRITE_BIT_EXT
    end.

(** The ranged-mapping capability, and any mapping capability at all. *)
Definition has_range_mapping (w : World) : bool :=
  negb OGRE_NO_GLES3_SUPPORT || rs_extensions w "GL_EXT_map_buffer_range".

Definition has_any_mapping (w : World) : bool :=
  has_range_mapping w || rs_extensions w "GL_OES_mapbuffer".

(** The flush the specification asks of [unlock]: exactly [0, lockSize),
    when the usage is write-oriented and ranged mapping is available. *)
Definition spec_flush_events (this : GLES2HardwareBuffer) (lockSize : size_t)
    (w : World) : list Event :=
  if bool_decide (write_oriented (mUsage this)) && has_range_mapping w
  then [GL (glFlushMappedBufferRangeEXT (mTarget this) 0 lockSize)]
  else [].

(** The driver data calls the specification asks of [writeData]: a full
    re-specification from the source for a whole-buffer write; otherwise
    the sub-range upload, preceded by a re-reservation of the whole
    storage with undefined contents when a discard is requested. *)
Definition spec_write_events (this : GLES2HardwareBuffer) (offset length : size_t)
    (source : pointer) (discardWholeBuffer : bool) : list Event :=
  if decide (offset = 0 ∧ length = mSizeInBytes this) then
    [GL (glBufferData (mTarget this) (mSizeInBytes this) source
           (getGLUsage (mUsage this)))]
  else
    (if discardWholeBuffer
     then [GL (glBufferData (mTarget this) (mSizeInBytes this) NULL
                 (getGLUsage (mUsage this)))]
     else []) ++
    [GL (glBufferSubData (mTarget this) offset length source)].

(** The driver calls the specification asks of [copyData] when buffer to
    buffer copies are available, split at the copy itself. *)
Definition spec_copy_prologue (this : GLES2HardwareBuffer) (sourceHandle : GLuint)
    (length : size_t) : list Event :=
  [GL (glBindBuffer (mTarget this) (mBufferId this));
   GL (glBufferData (mTarget this) length NULL (getGLUsage (mUsage this)));
   GL (glBindBuffer (mTarget this) 0);
   GL (glBindBuffer GL_COPY_READ_BUFFER sourceHandle);
   GL (glBindBuffer GL_COPY_WRITE_BUFFER (mBufferId this))].

Definition spec_copy_epilogue : list Event :=
  [GL (glBindBuffer GL_COPY_READ_BUFFER 0);
   GL (glBindBuffer GL_COPY_WRITE_BUFFER 0)].

(** The constructor directly followed by the destructor. *)
Definition create_then_destroy (target : GLenum) (sizeInBytes : size_t) (usage : Z)
  : M GLES2HardwareBuffer :=
  this ← new_GLES2HardwareBuffer target sizeInBytes usage;
  destroyBuffer this;;
  ret this.

End Wording.

(** ** Operations in sequence *)

Section Sequences.
Context `{Build}.

(** A lock followed by the matching unlock; the pointer is handed back. *)
Definition lock_then_unlock (this : GLES2HardwareBuffer) (offset length : size_t)
    (options : LockOptions) (lockSize : size_t) : M pointer :=
  p ← lockImpl this offset length options;
  unlockImpl this lockSize;;
  ret p.

End Sequences.

(** The events of a rebind through the state cache: the call into the
    cache, and the driver bind it issues unless the cache already records
    the buffer for the target. *)
Definition rebind_events (cache : gmap Z Z) (target : GLenum) (buffer : GLuint)
  : list Event :=
  Cache_bindGLBuffer target buffer ::
  (if bool_decide (cache !! target = Some buffer) then []
   else [GL (glBindBuffer target buffer)]).

(** The cache agrees with the driver: whatever buffer the cache records
    for a target is the one the driver has bound there. *)
Definition cache_consistent (w : World) : Prop :=
  ∀ cache target buffer,
    rs_stateCache w = Some cache →
    cache !! target = Some buffer → gl_bound w !! target = Some buffer.

(** ** A concrete platform, for running the model *)

(** Enumerant values as published in the GLES2/GLES3 headers, usage bits
    as numbered in [HardwareBuffer::Usage]. *)
Definition sample_build (no_gles3 : bool) : Build := {|
  OGRE_NO_GLES3_SUPPORT := no_gles3;
  HBU_STATIC := 1;
  HBU_WRITE_ONLY := 4;
  HBU_DISCARDABLE := 8;
  GL_MAP_READ_BIT_EXT := 0x0001;
  GL_MAP_WRITE_BIT_EXT := 0x0002;
  GL_MAP_INVALIDATE_RANGE_BIT_EXT := 0x0004;
  GL_MAP_FLUSH_EXPLICIT_BIT_EXT := 0x0010;
  GL_WRITE_ONLY_OES := 0x88B9;
  GL_STREAM_DRAW := 0x88E0;
  GL_STATIC_DRAW := 0x88E4;
  GL_DYNAMIC_DRAW := 0x88E8;
  GL_COPY_READ_BUFFER := 0x8F36;
  GL_COPY_WRITE_BUFFER := 0x8F37;
  GL_BUFFER_OBJECT_EXT := 0x9151;
  StringConverter_toString := pretty
|}.

(** A GLES2 build, where every mapping capability is an extension, and a
    build with GLES3 support. *)
Definition gles2_build : Build := sample_build true.
Definition gles3_build : Build := sample_build false.

Definition GL_ARRAY_BUFFER : GLenum := 0x8892.

Definition is_glGenBuffers (e : Event) : bool :=
  match e with GL (glGenBuffers _) => true | _ => false end.

(** A driver that hands out the names 1, 2, 3, ...; [map_base] is the
    address it maps buffers at (zero: every mapping fails) and [unmap] what
    it answers to unmapping. *)
Definition sample_driver (map_base : pointer) (unmap : Z)
    (history : list Event) (c : GLCall) : Z :=
  match c with
  | glGenBuffers _ => 1 + Z.of_nat (length (filter is_glGenBuffers history))
  | glMapBufferRangeEXT _ offset _ _ => if map_base =? 0 then 0 else map_base + offset
  | glMapBufferOES _ _ => map_base
  | glUnmapBufferOES _ => unmap
  | _ => 0
  end.

(** A driver out of buffer names: every call answers zero. *)
Definition exhausted_driver (history : list Event) (c : GLCall) : Z := 0.

(** A world with the given extensions, state cache and driver bindings,
    and no event yet. *)
Definition sample_world (extensions : list string) (cache : option (gmap Z Z))
    (bound : gmap Z Z) (driver : list Event → GLCall → Z) : World := {|
  rs_extensions := λ name, bool_decide (name ∈ extensions);
  rs_debug := false;
  rs_stateCache := cache;
  gl_driver := driver;
  gl_bound := bound;
  trace := []
|}.

(** A fresh context with ranged mapping, where mapping and unmapping work. *)
Definition fresh_world : World :=
  sample_world ["GL_EXT_map_buffer_range"] (Some ∅) ∅ (sample_driver 4096 1).

(** The same context with buffer 1 bound to the vertex target, through
    the cache. *)
Definition bound_world (driver : list Event → GLCall → Z) : World :=
  sample_world ["GL_EXT_map_buffer_range"]
    (Some {[ GL_ARRAY_BUFFER := 1 ]}) {[ GL_ARRAY_BUFFER := 1 ]} driver.

(** Contexts with the legacy whole-buffer mapping only, and with no
    mapping extension at all. *)
Definition legacy_world : World :=
  sample_world ["GL_OES_mapbuffer"] (Some ∅) ∅ (sample_driver 4096 1).

Definition bare_world : World :=
  sample_world [] (Some ∅) ∅ (sample_driver 4096 1).

(** A fresh context whose driver cannot hand out a buffer name. *)
Definition exhausted_world : World :=
  sample_world ["GL_EXT_map_buffer_range"] (Some ∅) ∅ exhausted_driver.

(** A context whose state cache manager is already gone. *)
Definition torn_down_world : World :=
  sample_world ["GL_EXT_map_buffer_range"] None ∅ (sample_driver 4096 1).

(** Two 16-byte buffers on the vertex target, named 1 and 2. *)
Definition sample_buffer (usage : Z) : GLES2HardwareBuffer :=
  {| mTarget := GL_ARRAY_BUFFER; mSizeInBytes := 16; mUsage := usage; mBufferId := 1 |}.

Definition other_buffer (usage : Z) : GLES2HardwareBuffer :=
  {| mTarget := GL_ARRAY_BUFFER; mSizeInBytes := 16; mUsage := usage; mBufferId := 2 |}.

(** The events a computation adds when run from a world. *)
Definition events_of {A} (m : M A) (w : World) : list Event :=
  drop (length (trace w)) (trace (after m w)).

(** * Properties *)

Section Properties.
Context `{Build}.

(** ** Running the primitives *)

Lemma bindGLBuffer_run target buffer w cache :
  rs_stateCache w = Some cache →
  bindGLBuffer target buffer w =
    (inr tt,
     if bool_decide (cache !! target = Some buffer)
     then add_event (Cache_bindGLBuffer target buffer) w
     else set_bound (<[target := buffer]> (gl_bound w))
            (add_event (GL (glBindBuffer target buffer))
               (set_stateCache (Some (<[target := buffer]> cache))
                  (add_event (Cache_bindGLBuffer target buffer) w)))).
Proof.
  intros Hc. unfold bindGLBuffer, bind, world. rewrite Hc. simpl.
  by destruct (bool_decide _).
Qed.

Lemma bindGLBuffer_trace target buffer w cache :
  rs_stateCache w = Some cache →
  trace (after (bindGLBuffer target buffer) w) =
    trace w ++ rebind_events cache target buffer.
Proof.
  intros Hc. unfold after, rebind_events. rewrite (bindGLBuffer_run _ _ _ _ Hc).
  destruct (bool_decide _); simpl; by rewrite <- ?app_assoc.
Qed.

Lemma nonzero_write_oriented usage :
  nonzero (Z.land usage HBU_WRITE_ONLY) = bool_decide (write_oriented usage).
Proof.
  unfold nonzero, write_oriented.
  destruct (Z.eqb_spec (Z.land usage HBU_WRITE_ONLY) 0) as [E|E]; simpl.
  - symmetry. apply bool_decide_eq_false. tauto.
  - symmetry. by apply bool_decide_eq_true.
Qed.

Lemma nonzero_false z : nonzero z = false ↔ z = 0.
Proof. unfold nonzero. destruct (Z.eqb_spec z 0); simpl; split; congruence. Qed.

Lemma nonzero_true z : nonzero z = true ↔ z ≠ 0.
Proof. unfold nonzero. destruct (Z.eqb_spec z 0); simpl; split; congruence. Qed.

(** The flags [lockImpl] computes on the range path are the worded ones. *)
Lemma range_access_wording usage options :
  (if nonzero (Z.land usage HBU_WRITE_ONLY) then
     if bool_decide (options = HBL_DISCARD) || bool_decide (options = HBL_NO_OVERWRITE)
     then Z.lor (Z.lor GL_MAP_WRITE_BIT_EXT GL_MAP_FLUSH_EXPLICIT_BIT_EXT)
            GL_MAP_INVALIDATE_RANGE_BIT_EXT
     else Z.lor GL_MAP_WRITE_BIT_EXT GL_MAP_FLUSH_EXPLICIT_BIT_EXT
   else if bool_decide (options = HBL_READ_ONLY) then GL_MAP_READ_BIT_EXT
   else Z.lor GL_MAP_READ_BIT_EXT GL_MAP_WRITE_BIT_EXT)
  = spec_range_access usage options.
Proof.
  rewrite nonzero_write_oriented. unfold spec_range_access.
  destruct (decide (write_oriented usage)) as [D|D].
  - rewrite (bool_decide_eq_true_2 _ D). by destruct options.
  - rewrite (bool_decide_eq_false_2 _ D). by destruct options.
Qed.

(** ** lock *)

(** C1.  On the range-mapping path [lockImpl] rebinds and then issues one
    ranged map call over (offset, length) whose access flags are exactly
    those the specification words: write plus explicit flush for a
    write-oriented usage (plus range invalidation for discard or
    no-overwrite), else read only for a read-only lock, else read plus
    write. *)
Theorem lockImpl_range_access this offset length options w cache :
  rs_stateCache w = Some cache →
  has_range_mapping w = true →
  trace (after (lockImpl this offset length options) w) =
    trace w ++ rebind_events cache (mTarget this) (mBufferId this) ++
    [GL (glMapBufferRangeEXT (mTarget this) offset length
           (spec_range_access (mUsage this) options))].
Proof.
  intros Hc Hr.
  unfold after, lockImpl, bind at 1. rewrite (bindGLBuffer_run _ _ _ _ Hc).
  unfold rebind_events, has_range_mapping in *.
  destruct (bool_decide (cache !! _ = _));
  unfold hasMapBufferRange, checkExtension, bind, ret, world, OGRE_CHECK_GL_ERROR;
  destruct OGRE_NO_GLES3_SUPPORT; simpl in *; rewrite ?Hr; simpl;
  rewrite range_access_wording;
  destruct (negb (nonzero _)); simpl; by rewrite <- ?app_assoc.
Qed.

(** ** unlock *)

(** C2.  [unlockImpl] rebinds; it asks the driver to flush exactly
    [0, lockSize) when the usage is write-oriented and ranged mapping is
    available; it then unmaps when any mapping capability is available,
    and fails with the corruption error exactly when that unmap call was
    made and the driver answered false. *)
Theorem unlockImpl_flush_unmap this lockSize w cache :
  rs_stateCache w = Some cache →
  let before_unmap :=
    trace w ++ rebind_events cache (mTarget this) (mBufferId this) ++
    spec_flush_events this lockSize w in
  let mapped := gl_driver w before_unmap (glUnmapBufferOES (mTarget this)) in
  trace (after (unlockImpl this lockSize) w) =
    before_unmap ++
    (if has_any_mapping w then [GL (glUnmapBufferOES (mTarget this))] else []) ∧
  (outcome (unlockImpl this lockSize) w =
     inl (CorruptionError "GLES2HardwareBuffer::unlock")
   ↔ has_any_mapping w = true ∧ mapped = 0) ∧
  (outcome (unlockImpl this lockSize) w = inr tt
   ↔ ¬ (has_any_mapping w = true ∧ mapped = 0)).
Proof.
  intros Hc. simpl.
  unfold after, outcome, unlockImpl, rebind_events, spec_flush_events,
    has_any_mapping, has_range_mapping.
  rewrite nonzero_write_oriented.
  unfold bindGLBuffer, hasMapBufferRange, checkExtension, when, bind, ret, world,
    emit, throw, OGRE_CHECK_GL_ERROR.
  rewrite Hc. simpl.
  destruct (rs_extensions w "GL_EXT_map_buffer_range") eqn:Er,
    (rs_extensions w "GL_OES_mapbuffer") eqn:Eo;
  destruct (bool_decide (cache !! _ = _)), OGRE_NO_GLES3_SUPPORT,
    (bool_decide (write_oriented _)); simpl;
  repeat (first [rewrite Er | rewrite Eo]; simpl);
  rewrite <- ?app_assoc; simpl;
  try match goal with
      | |- context [nonzero ?x] =>
          destruct (nonzero x) eqn:En;
          [apply nonzero_true in En | apply nonzero_false in En]
      end;
  simpl; rewrite <- ?app_assoc; simpl; unfold CorruptionError;
  repeat split; intros; try done; intuition congruence.
Qed.

(** ** Rebinding through the cache *)

Lemma bindGLBuffer_consistent target buffer w cache :
  rs_stateCache w = Some cache →
  cache_consistent w →
  cache_consistent (after (bindGLBuffer target buffer) w).
Proof.
  intros Hc Hcons. unfold after. rewrite (bindGLBuffer_run _ _ _ _ Hc).
  case_bool_decide as E; simpl; intros cache' t b; simpl.
  - intros Hc' Ht. by apply (Hcons cache').
  - intros [= <-]. destruct (decide (t = target)) as [->|Ht].
    + by rewrite !lookup_insert_eq.
    + rewrite !lookup_insert_ne by done. by apply Hcons.
Qed.

(** After a rebind the driver has the buffer bound to the target, provided
    the cache agreed with the driver beforehand. *)
Lemma rebind_binds target buffer w cache :
  rs_stateCache w = Some cache →
  cache_consistent w →
  replay (gl_bound w) (rebind_events cache target buffer) !! target = Some buffer.
Proof.
  intros Hc Hcons. unfold rebind_events, replay.
  case_bool_decide as E; simpl.
  - by apply (Hcons cache).
  - by rewrite lookup_insert_eq.
Qed.

Lemma acted_on_app b evs evs' :
  acted_on b (evs ++ evs') = acted_on b evs ++ acted_on (replay b evs) evs'.
Proof.
  revert b. induction evs as [|e evs IH]; intros b; [done|].
  destruct e as [c| | |]; simpl; try apply IH.
  destruct (call_target c); simpl; by rewrite IH.
Qed.

Lemma acted_on_rebind b cache target buffer :
  acted_on b (rebind_events cache target buffer) = [].
Proof. unfold rebind_events. by case_bool_decide. Qed.

(** Data calls on one target all reach the buffer bound to it. *)
Lemma acted_on_data_calls b target buffer calls :
  b !! target = Some buffer →
  Forall (λ c, call_target c = Some target) calls →
  Forall (eq buffer) (acted_on b (GL <$> calls)).
Proof.
  intros Hb. induction 1 as [|c calls Hc _ IH]; simpl; [constructor|].
  rewrite Hc. replace (driver_bind c b) with b by (by destruct c).
  constructor; [by rewrite Hb | apply IH].
Qed.

(** The sibling of [readData]: every driver data call of [writeData]
    reaches the buffer's own storage, whatever was bound before. *)
Lemma writeData_acts_on_own_buffer this offset length pSource discard w cache :
  rs_stateCache w = Some cache →
  cache_consistent w →
  Forall (eq (mBufferId this))
    (acted_on (gl_bound w)
       (rebind_events cache (mTarget this) (mBufferId this) ++
        spec_write_events this offset length pSource discard)).
Proof.
  intros Hc Hcons. rewrite acted_on_app, acted_on_rebind. simpl.
  pose proof (rebind_binds (mTarget this) (mBufferId this) w cache Hc Hcons) as Hb.
  unfold spec_write_events.
  destruct (decide _); [|destruct discard];
    apply (acted_on_data_calls _ (mTarget this) _ [_]) ||
    apply (acted_on_data_calls _ (mTarget this) _ [_; _]);
    try done; repeat constructor.
Qed.

(** ** readData *)

(** C3.  Without the ranged-mapping capability [readData] fails at once
    with the unsupported-operation error and leaves the world as it was
    (no mapping, copy or unmap); with it, [readData] maps
    (offset, length) with read access only and, the driver having returned
    a mapping and the destination being a real address, copies [length]
    bytes from the mapping to the destination, and unmaps. *)
Theorem readData_requires_range_mapping this offset length pDest w :
  (has_range_mapping w = false →
   readData this offset length pDest w = (inl UnsupportedOperationError, w)) ∧
  (has_range_mapping w = true →
   let map_call :=
     glMapBufferRangeEXT (mTarget this) offset length GL_MAP_READ_BIT_EXT in
   let srcData := gl_driver w (trace w) map_call in
   srcData ≠ NULL →
   pDest ≠ NULL →
   trace (after (readData this offset length pDest) w) =
     trace w ++
     [GL map_call; memcpy pDest srcData length; GL (glUnmapBufferOES (mTarget this))]).
Proof.
  unfold has_range_mapping, after, readData, call_memcpy, hasMapBufferRange,
    checkExtension, UnsupportedOperationError, bind, ret, world, emit, throw,
    OGRE_CHECK_GL_ERROR.
  split; intros Hr; [|intros Hsrc Hdest];
    destruct OGRE_NO_GLES3_SUPPORT; simpl in *;
    try discriminate; rewrite ?Hr; simpl; try done;
    rewrite (bool_decide_eq_false_2 _ Hsrc), (bool_decide_eq_false_2 _ Hdest); simpl;
    destruct (negb (nonzero _)); simpl; by rewrite <- ?app_assoc.
Qed.

(** ** writeData *)

Lemma whole_buffer_wording (offset length size : Z) :
  bool_decide (offset = 0) && bool_decide (length = size) =
  bool_decide (offset = 0 ∧ length = size).
Proof.
  destruct (decide (offset = 0)) as [->|N], (decide (length = size)) as [->|N'];
    repeat first [rewrite bool_decide_eq_true_2 by done
                 | rewrite bool_decide_eq_false_2 by tauto]; done.
Qed.

(** C5.  [writeData] first rebinds through the state cache and only then
    makes its driver data calls: a full re-specification from the source
    when offset is 0 and length is the buffer size; otherwise the
    sub-range upload, preceded by a re-reservation of the whole storage
    with null data when [discardWholeBuffer] is set. *)
Theorem writeData_events this offset length pSource discardWholeBuffer w cache :
  rs_stateCache w = Some cache →
  outcome (writeData this offset length pSource discardWholeBuffer) w = inr tt ∧
  trace (after (writeData this offset length pSource discardWholeBuffer) w) =
    trace w ++ rebind_events cache (mTarget this) (mBufferId this) ++
    spec_write_events this offset length pSource discardWholeBuffer.
Proof.
  intros Hc.
  unfold outcome, after, writeData, spec_write_events, rebind_events.
  rewrite whole_buffer_wording.
  unfold bindGLBuffer, when, bind, ret, world, emit, OGRE_CHECK_GL_ERROR.
  rewrite Hc. simpl.
  destruct (bool_decide (cache !! _ = _)), (decide (offset = 0 ∧ _)) as [D|D];
    [rewrite (bool_decide_eq_true_2 _ D) | rewrite (bool_decide_eq_false_2 _ D)
    |rewrite (bool_decide_eq_true_2 _ D) | rewrite (bool_decide_eq_false_2 _ D)];
    destruct discardWholeBuffer; simpl; by rewrite <- ?app_assoc.
Qed.

(** ** lock, out of bounds *)

(** C6, as the code has it.  [lockImpl] does not compare the range with
    the buffer size: for offset + length beyond [mSizeInBytes], on the
    range-mapping path, it rebinds and asks the driver to map exactly
    (offset, length); the call is rejected only when the driver returns no
    mapping, and otherwise returns the driver's address. *)
Theorem lockImpl_forwards_any_range this offset length options w cache :
  rs_stateCache w = Some cache →
  has_range_mapping w = true →
  offset + length > mSizeInBytes this →
  let before_map :=
    trace w ++ rebind_events cache (mTarget this) (mBufferId this) in
  let map_call :=
    glMapBufferRangeEXT (mTarget this) offset length
      (spec_range_access (mUsage this) options) in
  let pBuffer := gl_driver w before_map map_call in
  trace (after (lockImpl this offset length options) w) = before_map ++ [GL map_call] ∧
  outcome (lockImpl this offset length options) w =
    if decide (pBuffer = NULL) then inl MappingError else inr pBuffer.
Proof.
  intros Hc Hr _. simpl.
  unfold outcome, after, lockImpl, rebind_events, has_range_mapping, MappingError, NULL in *.
  unfold bindGLBuffer, hasMapBufferRange, checkExtension, bind, ret, world, emit,
    throw, OGRE_CHECK_GL_ERROR.
  rewrite Hc. simpl.
  destruct (bool_decide (cache !! _ = _));
  destruct OGRE_NO_GLES3_SUPPORT; simpl in *; rewrite ?Hr; simpl;
  rewrite range_access_wording, <- ?app_assoc; simpl;
  match goal with
  | |- context [nonzero ?x] =>
      destruct (nonzero x) eqn:En;
      [apply nonzero_true in En | apply nonzero_false in En]
  end;
  simpl; rewrite <- ?app_assoc; simpl;
  (split; [done|]); destruct (decide _); done.
Qed.

(** ** destroy *)

(** C8, as the code has it.  With a state cache manager, [destroyBuffer]
    hands the buffer to the cache's delete operation, which evicts the
    entry and deletes the driver object in one call, so that afterwards the
    cache holds no entry for the handle on the buffer's target.  Without a
    manager [destroyBuffer] does nothing at all: no eviction and no driver
    deletion.  A buffer created and destroyed at once, under a cache that
    did not already hold its fresh handle, leaves no cache entry for that
    handle on any target. *)
Theorem destroyBuffer_delegates_to_cache this target sizeInBytes usage w :
  (∀ cache, rs_stateCache w = Some cache →
     outcome (destroyBuffer this) w = inr tt ∧
     trace (after (destroyBuffer this) w) =
       trace w ++ [Cache_deleteGLBuffer (mTarget this) (mBufferId this);
                   GL (glDeleteBuffers 1 (mBufferId this))] ∧
     ∃ cache', rs_stateCache (after (destroyBuffer this) w) = Some cache' ∧
               cache' !! mTarget this ≠ Some (mBufferId this)) ∧
  (rs_stateCache w = None → destroyBuffer this w = (inr tt, w)) ∧
  (∀ cache created,
     rs_stateCache w = Some cache →
     outcome (create_then_destroy target sizeInBytes usage) w = inr created →
     (∀ t, cache !! t ≠ Some (mBufferId created)) →
     ∃ cache',
       rs_stateCache (after (create_then_destroy target sizeInBytes usage) w)
         = Some cache' ∧
       ∀ t, cache' !! t ≠ Some (mBufferId created)).
Proof.
  split; [|split].
  - intros cache Hc.
    unfold outcome, after, destroyBuffer, _getStateCacheManager, deleteGLBuffer,
      when, bind, ret, world, emit, OGRE_CHECK_GL_ERROR.
    rewrite Hc. simpl. rewrite Hc. simpl. rewrite <- app_assoc. simpl.
    repeat split; try done.
    eexists; split; [done|].
    case_bool_decide as E; [by rewrite lookup_delete_eq | done].
  - intros Hc.
    unfold destroyBuffer, _getStateCacheManager, when, bind, ret, world.
    by rewrite Hc.
  - intros cache created Hc.
    unfold create_then_destroy, new_GLES2HardwareBuffer, createBuffer, destroyBuffer,
      outcome, after.
    unfold _getStateCacheManager, deleteGLBuffer, bindGLBuffer,
      hasCapability_RSC_DEBUG, when, bind, ret, world, emit, throw,
      OGRE_CHECK_GL_ERROR.
    simpl. set (id := gl_driver w (trace w) (glGenBuffers 1)).
    destruct (nonzero id); simpl; [|discriminate].
    rewrite Hc. simpl.
    destruct (bool_decide (cache !! target = Some id)) eqn:Eb.
    + apply bool_decide_eq_true in Eb. simpl.
      destruct (rs_debug w); simpl; repeat (rewrite Hc; simpl);
        intros [= <-] Hfresh; by destruct (Hfresh target).
    + simpl. destruct (rs_debug w); simpl;
        (intros [= <-] Hfresh; simpl in *; eexists; split; [done|];
         rewrite lookup_insert_eq, bool_decide_eq_true_2 by done;
         intros t; destruct (decide (t = target)) as [->|Ht];
         [by rewrite lookup_delete_eq
         |rewrite lookup_delete_ne, lookup_insert_ne by done; apply Hfresh]).
Qed.

(** ** copyData *)

Lemma copyData_run_gles3 this srcBufferId srcOffset dstOffset length discard w :
  OGRE_NO_GLES3_SUPPORT = false →
  outcome (copyData this srcBufferId srcOffset dstOffset length discard) w = inr tt ∧
  trace (after (copyData this srcBufferId srcOffset dstOffset length discard) w) =
    trace w ++ spec_copy_prologue this srcBufferId length ++
    [GL (glCopyBufferSubData GL_COPY_READ_BUFFER GL_COPY_WRITE_BUFFER
           srcOffset dstOffset length)] ++
    spec_copy_epilogue ∧
  gl_bound (after (copyData this srcBufferId srcOffset dstOffset length discard) w) =
    replay (gl_bound w)
      (spec_copy_prologue this srcBufferId length ++ spec_copy_epilogue).
Proof.
  unfold copyData, outcome, after, bind, ret, OGRE_CHECK_GL_ERROR,
    spec_copy_prologue, spec_copy_epilogue, replay, NULL.
  intros ->. simpl. by rewrite <- !app_assoc.
Qed.

(** C9.  In a build without GLES3 support [copyData] is a failed assertion
    and leaves the world untouched.  In a build with it, [copyData]
    re-specifies the destination storage with size [length], binds the
    source to the copy-read point and the destination to the copy-write
    point, so that at the copy both are bound at once when the two points
    differ, copies [length] bytes from [srcOffset] to [dstOffset], and
    leaves both copy points unbound. *)
Theorem copyData_requires_gles3 this srcBufferId srcOffset dstOffset length discard w :
  (OGRE_NO_GLES3_SUPPORT = true →
   copyData this srcBufferId srcOffset dstOffset length discard w =
     (inl (assertion_failed "GLES3 needed"), w)) ∧
  (OGRE_NO_GLES3_SUPPORT = false →
   let run := copyData this srcBufferId srcOffset dstOffset length discard in
   outcome run w = inr tt ∧
   trace (after run w) =
     trace w ++ spec_copy_prologue this srcBufferId length ++
     [GL (glCopyBufferSubData GL_COPY_READ_BUFFER GL_COPY_WRITE_BUFFER
            srcOffset dstOffset length)] ++
     spec_copy_epilogue ∧
   (GL_COPY_READ_BUFFER ≠ GL_COPY_WRITE_BUFFER →
    let at_copy := replay (gl_bound w) (spec_copy_prologue this srcBufferId length) in
    at_copy !! GL_COPY_READ_BUFFER = Some srcBufferId ∧
    at_copy !! GL_COPY_WRITE_BUFFER = Some (mBufferId this)) ∧
   gl_bound (after run w) !! GL_COPY_READ_BUFFER = Some 0 ∧
   gl_bound (after run w) !! GL_COPY_WRITE_BUFFER = Some 0).
Proof.
  unfold copyData, outcome, after, OgreAssert, bind, ret, throw, OGRE_CHECK_GL_ERROR,
    spec_copy_prologue, spec_copy_epilogue, replay, NULL.
  split; intros ->; simpl; [done|].
  rewrite <- !app_assoc. simpl.
  repeat split; try done.
  - by rewrite lookup_insert_ne, lookup_insert_eq.
  - by rewrite lookup_insert_eq.
  - destruct (decide (GL_COPY_READ_BUFFER = GL_COPY_WRITE_BUFFER)) as [E|E].
    + by rewrite <- E, lookup_insert_eq.
    + by rewrite lookup_insert_ne, lookup_insert_eq.
  - by rewrite lookup_insert_eq.
Qed.

(** C10.  [copyData] never reads [discardWholeBuffer]: two calls that
    differ only in that argument give the same outcome and the same world;
    in particular, in a build with GLES3 support, the destination storage
    is re-specified with size [length] whatever the argument is. *)
Theorem copyData_ignores_discard this srcBufferId srcOffset dstOffset length w :
  (∀ d1 d2,
     copyData this srcBufferId srcOffset dstOffset length d1 w =
     copyData this srcBufferId srcOffset dstOffset length d2 w) ∧
  (OGRE_NO_GLES3_SUPPORT = false →
   ∀ discard,
     GL (glBufferData (mTarget this) length NULL (getGLUsage (mUsage this)))
     ∈ trace (after (copyData this srcBufferId srcOffset dstOffset length discard) w)).
Proof.
  split.
  - intros d1 d2. unfold copyData. reflexivity.
  - intros Hg discard.
    destruct (copyData_run_gles3 this srcBufferId srcOffset dstOffset length discard w Hg)
      as (_ & -> & _).
    unfold spec_copy_prologue. set_solver.
Qed.

End Properties.

(** * The model at work *)

(** ** A GLES2 build: mapping comes from extensions *)

Section OnGLES2.
#[local] Existing Instance gles2_build.

(** Locking a write-only buffer for discard on the range path: write,
    explicit flush and range invalidation, 0x16. *)
Lemma lockImpl_range_access_witness :
  rs_stateCache fresh_world = Some ∅ ∧
  has_range_mapping fresh_world = true ∧
  trace (after (lockImpl (sample_buffer 4) 0 16 HBL_DISCARD) fresh_world) =
    [Cache_bindGLBuffer GL_ARRAY_BUFFER 1; GL (glBindBuffer GL_ARRAY_BUFFER 1);
     GL (glMapBufferRangeEXT GL_ARRAY_BUFFER 0 16 0x16)].
Proof.
  split; [reflexivity|split; [reflexivity|]].
  etrans;
    [apply (lockImpl_range_access (sample_buffer 4) 0 16 HBL_DISCARD fresh_world ∅)|];
    reflexivity.
Defined.

(** Unlocking a write-only buffer when the driver reports the contents
    lost: flush of [0, 16), unmap, corruption error. *)
Lemma unlockImpl_flush_unmap_witness :
  let w := bound_world (sample_driver 4096 0) in
  rs_stateCache w = Some {[ GL_ARRAY_BUFFER := 1 ]} ∧
  trace (after (unlockImpl (sample_buffer 4) 16) w) =
    [Cache_bindGLBuffer GL_ARRAY_BUFFER 1;
     GL (glFlushMappedBufferRangeEXT GL_ARRAY_BUFFER 0 16);
     GL (glUnmapBufferOES GL_ARRAY_BUFFER)] ∧
  outcome (unlockImpl (sample_buffer 4) 16) w =
    inl (CorruptionError "GLES2HardwareBuffer::unlock").
Proof.
  intros w.
  destruct (unlockImpl_flush_unmap (sample_buffer 4) 16 w {[ GL_ARRAY_BUFFER := 1 ]}
              eq_refl) as (Ht & Hfail & _).
  split; [reflexivity|split; [etrans; [exact Ht|reflexivity]|]].
  apply Hfail. split; reflexivity.
Defined.

(** Reading with and without the ranged-mapping extension. *)
Lemma readData_requires_range_mapping_witness :
  has_range_mapping legacy_world = false ∧
  readData (sample_buffer 0) 0 16 8192 legacy_world =
    (inl UnsupportedOperationError, legacy_world) ∧
  has_range_mapping fresh_world = true ∧
  gl_driver fresh_world (trace fresh_world)
    (glMapBufferRangeEXT GL_ARRAY_BUFFER 4 8 GL_MAP_READ_BIT_EXT) ≠ NULL ∧
  8192 ≠ NULL ∧
  trace (after (readData (sample_buffer 0) 4 8 8192) fresh_world) =
    [GL (glMapBufferRangeEXT GL_ARRAY_BUFFER 4 8 1); memcpy 8192 4100 8;
     GL (glUnmapBufferOES GL_ARRAY_BUFFER)].
Proof.
  split; [reflexivity|split; [|split; [reflexivity|]]].
  - apply (readData_requires_range_mapping (sample_buffer 0) 0 16 8192 legacy_world).
    reflexivity.
  - split; [discriminate|split; [discriminate|]].
    etrans;
      [apply (readData_requires_range_mapping (sample_buffer 0) 4 8 8192 fresh_world)|];
      (reflexivity || discriminate).
Defined.

(** C4.  When the driver returns no mapping, [readData] still copies:
    [memcpy] is called with the null source, and the call ends there, in
    the null access.  [lockImpl] checks the same result and raises the
    mapping error instead. *)
Theorem readData_copies_from_failed_mapping :
  let w := bound_world (sample_driver 0 1) in
  gl_driver w (trace w)
    (glMapBufferRangeEXT GL_ARRAY_BUFFER 0 16 GL_MAP_READ_BIT_EXT) = NULL ∧
  trace (after (readData (sample_buffer 0) 0 16 8192) w) =
    [GL (glMapBufferRangeEXT GL_ARRAY_BUFFER 0 16 GL_MAP_READ_BIT_EXT);
     memcpy 8192 NULL 16] ∧
  outcome (readData (sample_buffer 0) 0 16 8192) w = inl null_dereference ∧
  outcome (lockImpl (sample_buffer 0) 0 16 HBL_READ_ONLY) w = inl MappingError.
Proof. repeat split. Qed.

(** A partial write with discard: rebind, re-reserve, upload. *)
Lemma writeData_events_witness :
  rs_stateCache fresh_world = Some ∅ ∧
  outcome (writeData (sample_buffer 4) 4 8 8192 true) fresh_world = inr tt ∧
  trace (after (writeData (sample_buffer 4) 4 8 8192 true) fresh_world) =
    [Cache_bindGLBuffer GL_ARRAY_BUFFER 1; GL (glBindBuffer GL_ARRAY_BUFFER 1);
     GL (glBufferData GL_ARRAY_BUFFER 16 NULL GL_DYNAMIC_DRAW);
     GL (glBufferSubData GL_ARRAY_BUFFER 4 8 8192)].
Proof.
  destruct (writeData_events (sample_buffer 4) 4 8 8192 true fresh_world ∅ eq_refl)
    as (Ho & Ht).
  split; [reflexivity|split; [exact Ho|etrans; [exact Ht|reflexivity]]].
Defined.

(** C6.  A lock of 100 bytes at offset 8 of a 16-byte buffer is not
    rejected: the range goes to the driver and the call returns. *)
Lemma lockImpl_out_of_bounds_reaches_driver :
  8 + 100 > mSizeInBytes (sample_buffer 0) ∧
  outcome (lockImpl (sample_buffer 0) 8 100 HBL_NORMAL) fresh_world = inr 4104 ∧
  trace (after (lockImpl (sample_buffer 0) 8 100 HBL_NORMAL) fresh_world) =
    [Cache_bindGLBuffer GL_ARRAY_BUFFER 1; GL (glBindBuffer GL_ARRAY_BUFFER 1);
     GL (glMapBufferRangeEXT GL_ARRAY_BUFFER 8 100 3)].
Proof. repeat split. Qed.

Lemma lockImpl_forwards_any_range_witness :
  rs_stateCache fresh_world = Some ∅ ∧
  has_range_mapping fresh_world = true ∧
  8 + 100 > mSizeInBytes (sample_buffer 0) ∧
  trace (after (lockImpl (sample_buffer 0) 8 100 HBL_NORMAL) fresh_world) =
    [Cache_bindGLBuffer GL_ARRAY_BUFFER 1; GL (glBindBuffer GL_ARRAY_BUFFER 1);
     GL (glMapBufferRangeEXT GL_ARRAY_BUFFER 8 100 3)] ∧
  outcome (lockImpl (sample_buffer 0) 8 100 HBL_NORMAL) fresh_world = inr 4104.
Proof.
  assert (Hr : has_range_mapping fresh_world = true) by reflexivity.
  assert (Hb : 8 + 100 > mSizeInBytes (sample_buffer 0)) by reflexivity.
  destruct (lockImpl_forwards_any_range (sample_buffer 0) 8 100 HBL_NORMAL
              fresh_world ∅ eq_refl Hr Hb) as (Ht & Ho).
  split; [reflexivity|split; [exact Hr|split; [exact Hb|]]].
  split; (etrans; [eassumption|reflexivity]).
Defined.

(** C8.  With the state cache manager gone, [destroyBuffer] leaves the
    world as it was: the driver is never asked to delete the buffer. *)
Lemma destroyBuffer_torn_down_keeps_allocation :
  rs_stateCache torn_down_world = None ∧
  destroyBuffer (sample_buffer 0) torn_down_world = (inr tt, torn_down_world) ∧
  GL (glDeleteBuffers 1 1) ∉ trace (after (destroyBuffer (sample_buffer 0)) torn_down_world).
Proof. repeat split. simpl. apply not_elem_of_nil. Qed.

Lemma destroyBuffer_delegates_to_cache_witness :
  let w := bound_world (sample_driver 4096 1) in
  (outcome (destroyBuffer (sample_buffer 0)) w = inr tt ∧
   trace (after (destroyBuffer (sample_buffer 0)) w) =
     [Cache_deleteGLBuffer GL_ARRAY_BUFFER 1; GL (glDeleteBuffers 1 1)]) ∧
  destroyBuffer (sample_buffer 0) torn_down_world = (inr tt, torn_down_world) ∧
  ∃ cache',
    rs_stateCache (after (create_then_destroy GL_ARRAY_BUFFER 16 4) fresh_world)
      = Some cache' ∧
    ∀ t, cache' !! t ≠ Some 1.
Proof.
  intros w.
  destruct (destroyBuffer_delegates_to_cache (sample_buffer 0) GL_ARRAY_BUFFER 16 4 w)
    as (Hlive & _ & _).
  destruct (destroyBuffer_delegates_to_cache (sample_buffer 0) GL_ARRAY_BUFFER 16 4
              torn_down_world) as (_ & Hgone & _).
  destruct (destroyBuffer_delegates_to_cache (sample_buffer 0) GL_ARRAY_BUFFER 16 4
              fresh_world) as (_ & _ & Hpair).
  split; [|split].
  - destruct (Hlive _ eq_refl) as (Ho & Ht & _).
    split; [exact Ho | etrans; [exact Ht|reflexivity]].
  - apply Hgone. reflexivity.
  - apply (Hpair ∅ (sample_buffer 4)); [reflexivity | reflexivity |].
    intros t. by rewrite lookup_empty.
Defined.

(** Without GLES3 support [copyData] asserts. *)
Lemma copyData_asserts_on_gles2 :
  copyData (sample_buffer 0) 2 0 0 16 false fresh_world =
    (inl (assertion_failed "GLES3 needed"), fresh_world).
Proof. reflexivity. Qed.

End OnGLES2.

(** ** A build with GLES3 support *)

Section OnGLES3.
#[local] Existing Instance gles3_build.

(** C7.  Buffer 1 is bound to the vertex target, as the cache records.
    [readData] on buffer 2 makes no call into the cache: its map and unmap
    reach buffer 1.  [copyData] into buffer 1 binds behind the cache's back
    and leaves the target unbound while the cache still records buffer 1;
    the next [writeData], whose rebind the cache then skips, reaches no
    buffer at all. *)
Theorem readData_copyData_bypass_cache :
  let w := bound_world (sample_driver 4096 1) in
  cache_consistent w ∧
  trace (after (readData (other_buffer 0) 0 16 8192) w) =
    [GL (glMapBufferRangeEXT GL_ARRAY_BUFFER 0 16 GL_MAP_READ_BIT_EXT);
     memcpy 8192 4096 16;
     GL (glUnmapBufferOES GL_ARRAY_BUFFER)] ∧
  acted_on (gl_bound w) (events_of (readData (other_buffer 0) 0 16 8192) w) = [1; 1] ∧
  let w' := after (copyData (sample_buffer 0) 2 0 0 16 false) w in
  rs_stateCache w' = Some {[ GL_ARRAY_BUFFER := 1 ]} ∧
  gl_bound w' !! GL_ARRAY_BUFFER = Some 0 ∧
  ¬ cache_consistent w' ∧
  events_of (writeData (sample_buffer 0) 0 16 8192 false) w' =
    [Cache_bindGLBuffer GL_ARRAY_BUFFER 1;
     GL (glBufferData GL_ARRAY_BUFFER 16 8192 GL_DYNAMIC_DRAW)] ∧
  acted_on (gl_bound w') (events_of (writeData (sample_buffer 0) 0 16 8192 false) w') = [0].
Proof.
  intros w. split.
  { intros cache t b [= <-] [<- <-]%lookup_singleton_Some. reflexivity. }
  do 2 (split; [reflexivity|]).
  intros w'. do 2 (split; [reflexivity|]). split.
  { intros Hcons.
    specialize (Hcons {[ GL_ARRAY_BUFFER := 1 ]} GL_ARRAY_BUFFER 1 eq_refl eq_refl).
    vm_compute in Hcons. discriminate. }
  split; reflexivity.
Qed.

Lemma copyData_requires_gles3_witness :
  let run := copyData (sample_buffer 0) 2 4 8 8 true in
  OGRE_NO_GLES3_SUPPORT = false ∧
  outcome run fresh_world = inr tt ∧
  trace (after run fresh_world) =
    [GL (glBindBuffer GL_ARRAY_BUFFER 1);
     GL (glBufferData GL_ARRAY_BUFFER 8 NULL GL_DYNAMIC_DRAW);
     GL (glBindBuffer GL_ARRAY_BUFFER 0);
     GL (glBindBuffer GL_COPY_READ_BUFFER 2);
     GL (glBindBuffer GL_COPY_WRITE_BUFFER 1);
     GL (glCopyBufferSubData GL_COPY_READ_BUFFER GL_COPY_WRITE_BUFFER 4 8 8);
     GL (glBindBuffer GL_COPY_READ_BUFFER 0);
     GL (glBindBuffer GL_COPY_WRITE_BUFFER 0)] ∧
  GL_COPY_READ_BUFFER ≠ GL_COPY_WRITE_BUFFER.
Proof.
  intros run.
  destruct (copyData_requires_gles3 (sample_buffer 0) 2 4 8 8 true fresh_world)
    as (_ & Hpresent).
  destruct (Hpresent eq_refl) as (Ho & Ht & _).
  split; [reflexivity|split; [exact Ho|split; [|discriminate]]].
  etrans; [exact Ht|reflexivity].
Defined.

Lemma copyData_ignores_discard_witness :
  OGRE_NO_GLES3_SUPPORT = false ∧
  copyData (sample_buffer 0) 2 4 8 8 true fresh_world =
  copyData (sample_buffer 0) 2 4 8 8 false fresh_world ∧
  GL (glBufferData GL_ARRAY_BUFFER 8 NULL GL_DYNAMIC_DRAW)
  ∈ trace (after (copyData (sample_buffer 0) 2 4 8 8 false) fresh_world).
Proof.
  destruct (copyData_ignores_discard (sample_buffer 0) 2 4 8 8 fresh_world)
    as (Hsame & Halways).
  split; [reflexivity|split; [apply Hsame|apply (Halways eq_refl false)]].
Defined.

End OnGLES3.

(** * Further properties of the buffer *)

Section MoreProperties.
Context `{Build}.

Ltac unfold_monad :=
  unfold bindGLBuffer, deleteGLBuffer, hasMapBufferRange, checkExtension,
    _getStateCacheManager, hasCapability_RSC_DEBUG, OgreAssert, when, bind, ret,
    world, emit, throw, OGRE_CHECK_GL_ERROR.

Ltac split_nonzero :=
  match goal with
  | |- context [nonzero ?x] =>
      let En := fresh "En" in
      destruct (nonzero x) eqn:En;
      [apply nonzero_true in En | apply nonzero_false in En]
  end.

Lemma events_of_app {A} (m : M A) w evs :
  trace (after m w) = trace w ++ evs → events_of m w = evs.
Proof. unfold events_of. intros ->. by rewrite drop_app_length. Qed.

Lemma cache_consistent_ext w w' :
  rs_stateCache w' = rs_stateCache w → gl_bound w' = gl_bound w →
  cache_consistent w → cache_consistent w'.
Proof.
  intros Hc Hb Hcons cache t b. rewrite Hc, Hb. apply Hcons.
Qed.

(** ** Pointer arithmetic *)

Lemma ptr_add_in_range p n : 0 ≤ p + n < 2 ^ 64 → ptr_add p n = p + n.
Proof.
  intros Hr. unfold ptr_add. case_bool_decide as E.
  - subst n. by rewrite Z.add_0_r.
  - by rewrite Z.mod_small.
Qed.

(** ** getGLUsage *)

(** X1.  The allocation hint depends on the discardable and static bits
    only: two usages that agree on those bits get the same hint, whatever
    their other bits are.  In particular, adding the write-only flag to a
    usage, when that flag shares no bit with the two others, leaves the
    hint unchanged. *)
Theorem getGLUsage_depends_on_two_bits :
  (∀ usage usage',
     Z.land usage HBU_DISCARDABLE = Z.land usage' HBU_DISCARDABLE →
     Z.land usage HBU_STATIC = Z.land usage' HBU_STATIC →
     getGLUsage usage = getGLUsage usage') ∧
  (Z.land HBU_WRITE_ONLY HBU_DISCARDABLE = 0 →
   Z.land HBU_WRITE_ONLY HBU_STATIC = 0 →
   ∀ usage, getGLUsage (Z.lor usage HBU_WRITE_ONLY) = getGLUsage usage).
Proof.
  assert (Hgen : ∀ usage usage',
            Z.land usage HBU_DISCARDABLE = Z.land usage' HBU_DISCARDABLE →
            Z.land usage HBU_STATIC = Z.land usage' HBU_STATIC →
            getGLUsage usage = getGLUsage usage').
  { intros usage usage' Hd Hs. unfold getGLUsage. by rewrite Hd, Hs. }
  split; [exact Hgen|].
  intros Hd Hs usage. apply Hgen.
  - by rewrite Z.land_lor_distr_l, Hd, Z.lor_0_r.
  - by rewrite Z.land_lor_distr_l, Hs, Z.lor_0_r.
Qed.

(** ** Construction *)

(** X2.  When the driver hands out the name zero, the constructor fails
    with the allocation error right after [glGenBuffers]: nothing is
    bound, no storage is reserved, and the state cache is left as it was. *)
Theorem new_buffer_without_name target sizeInBytes usage w :
  gl_driver w (trace w) (glGenBuffers 1) = 0 →
  let create := new_GLES2HardwareBuffer target sizeInBytes usage in
  outcome create w = inl AllocationError ∧
  trace (after create w) = trace w ++ [GL (glGenBuffers 1)] ∧
  rs_stateCache (after create w) = rs_stateCache w ∧
  gl_bound (after create w) = gl_bound w.
Proof.
  intros Hz. unfold new_GLES2HardwareBuffer, createBuffer, outcome, after, AllocationError.
  unfold_monad. simpl. rewrite Hz. simpl. done.
Qed.

(** X3.  When the driver hands out a non-zero name, the constructor
    returns a buffer with that name and the given target, size and usage;
    it rebinds through the state cache, labels the buffer when the debug
    capability is present, and reserves [sizeInBytes] of storage with null
    data and the hint of the usage.  Afterwards the cache records the new
    buffer for the target, and the driver has it bound there if the cache
    agreed with the driver beforehand. *)
Theorem new_buffer_reserves_storage target sizeInBytes usage w cache :
  rs_stateCache w = Some cache →
  let id := gl_driver w (trace w) (glGenBuffers 1) in
  id ≠ 0 →
  let create := new_GLES2HardwareBuffer target sizeInBytes usage in
  outcome create w =
    inr {| mTarget := target; mSizeInBytes := sizeInBytes;
           mUsage := usage; mBufferId := id |} ∧
  trace (after create w) =
    trace w ++ [GL (glGenBuffers 1)] ++ rebind_events cache target id ++
    (if rs_debug w
     then [GL (glLabelObjectEXT GL_BUFFER_OBJECT_EXT id 0
                 ("Buffer #" +:+ StringConverter_toString id))]
     else []) ++
    [GL (glBufferData target sizeInBytes NULL (getGLUsage usage))] ∧
  (∃ cache', rs_stateCache (after create w) = Some cache' ∧
             cache' !! target = Some id) ∧
  (cache_consistent w → gl_bound (after create w) !! target = Some id).
Proof.
  intros Hc id Hid create. subst create.
  unfold new_GLES2HardwareBuffer, createBuffer, outcome, after, rebind_events.
  unfold_monad. simpl. fold id.
  apply nonzero_true in Hid as Hnz. rewrite Hnz. simpl. rewrite Hc. simpl.
  destruct (bool_decide (cache !! target = Some id)) eqn:Eb; simpl;
    destruct (rs_debug w); simpl; rewrite <- ?app_assoc; simpl;
    (split; [done|split; [done|split]]);
    try (eexists; split; [done|]);
    try (apply bool_decide_eq_true in Eb; done);
    try (by rewrite lookup_insert_eq);
    intros Hcons; apply bool_decide_eq_true in Eb; by apply (Hcons cache).
Qed.

(** ** lock on the other paths *)

(** X4.  On the legacy path (no ranged mapping, [GL_OES_mapbuffer]
    present) [lockImpl] rebinds, re-reserves the whole storage first when
    the mode is discard or no-overwrite, and maps the whole buffer with
    write-only access for a write-oriented usage and access 0 otherwise.
    A null mapping is the mapping error; otherwise the result is the
    driver's address plus [offset] in pointer arithmetic, which is their
    plain sum as long as that sum is an address. *)
Theorem lockImpl_legacy_path this offset length options w cache :
  rs_stateCache w = Some cache →
  has_range_mapping w = false →
  rs_extensions w "GL_OES_mapbuffer" = true →
  let before_map :=
    trace w ++ rebind_events cache (mTarget this) (mBufferId this) ++
    (if bool_decide (options = HBL_DISCARD ∨ options = HBL_NO_OVERWRITE)
     then [GL (glBufferData (mTarget this) (mSizeInBytes this) NULL
                 (getGLUsage (mUsage this)))]
     else []) in
  let map_call :=
    glMapBufferOES (mTarget this)
      (if bool_decide (write_oriented (mUsage this)) then GL_WRITE_ONLY_OES else 0) in
  let pBuffer := gl_driver w before_map map_call in
  trace (after (lockImpl this offset length options) w) = before_map ++ [GL map_call] ∧
  outcome (lockImpl this offset length options) w =
    (if decide (pBuffer = NULL) then inl MappingError
     else inr (ptr_add pBuffer offset)) ∧
  (0 ≤ pBuffer + offset < 2 ^ 64 → ptr_add pBuffer offset = pBuffer + offset).
Proof.
  intros Hc Hr Ho. simpl.
  unfold outcome, after, lockImpl, rebind_events, has_range_mapping, MappingError, NULL in *.
  rewrite nonzero_write_oriented.
  unfold_monad. rewrite Hc. simpl.
  destruct OGRE_NO_GLES3_SUPPORT; simpl in Hr; [|discriminate].
  destruct (bool_decide (cache !! _ = _)); simpl;
    repeat (first [rewrite Hr | rewrite Ho]; simpl);
    destruct options; simpl;
    destruct (bool_decide (write_oriented _)); simpl;
    rewrite <- ?app_assoc; simpl; split_nonzero;
    simpl; rewrite <- ?app_assoc; simpl;
    (split; [done|split; [destruct (decide _); done|apply ptr_add_in_range]]).
Qed.

(** X5.  With no mapping capability at all [lockImpl] only rebinds and
    then fails with the mapping error: no map call reaches the driver. *)
Theorem lockImpl_without_mapping this offset length options w cache :
  rs_stateCache w = Some cache →
  has_any_mapping w = false →
  outcome (lockImpl this offset length options) w = inl MappingError ∧
  trace (after (lockImpl this offset length options) w) =
    trace w ++ rebind_events cache (mTarget this) (mBufferId this).
Proof.
  intros Hc Ha.
  unfold has_any_mapping, has_range_mapping in Ha.
  apply orb_false_iff in Ha as [Hr Ho]. apply orb_false_iff in Hr as [Hg Hr].
  apply negb_false_iff in Hg.
  unfold outcome, after, lockImpl, rebind_events, MappingError.
  unfold_monad. rewrite Hc, Hg. simpl.
  destruct (bool_decide (cache !! _ = _)); simpl;
    repeat (first [rewrite Hr | rewrite Ho]; simpl);
    rewrite <- ?app_assoc; done.
Qed.

(** ** readData *)



(** ** writeData *)

(** X9.  For a write of the whole buffer the discard flag makes no
    difference: both values give the same outcome and the same world. *)
Theorem writeData_whole_buffer_ignores_discard this offset length pSource w :
  offset = 0 →
  length = mSizeInBytes this →
  writeData this offset length pSource true w =
  writeData this offset length pSource false w.
Proof.
  intros -> ->. unfold writeData.
  by rewrite !bool_decide_eq_true_2.
Qed.

(** ** copyData *)

(** X8.  In a build with GLES3 support [copyData] never goes through the
    state cache: the cache is left as it was while the driver ends with
    nothing bound to the buffer's target.  So if the cache recorded this
    buffer for its target, it no longer agrees with the driver. *)
Theorem copyData_bypasses_cache this srcBufferId srcOffset dstOffset length discard w :
  OGRE_NO_GLES3_SUPPORT = false →
  let run := copyData this srcBufferId srcOffset dstOffset length discard in
  rs_stateCache (after run w) = rs_stateCache w ∧
  gl_bound (after run w) !! mTarget this = Some 0 ∧
  (∀ cache, rs_stateCache w = Some cache →
            cache !! mTarget this = Some (mBufferId this) →
            mBufferId this ≠ 0 →
            ¬ cache_consistent (after run w)).
Proof.
  intros Hg run.
  assert (Hb : gl_bound (after run w) !! mTarget this = Some 0).
  { subst run. unfold copyData, after. unfold_monad. rewrite Hg. simpl.
    destruct (decide (mTarget this = GL_COPY_WRITE_BUFFER)) as [->|Hw];
      [by rewrite lookup_insert_eq|rewrite lookup_insert_ne by done].
    destruct (decide (mTarget this = GL_COPY_READ_BUFFER)) as [->|Hrd];
      [by rewrite lookup_insert_eq|rewrite lookup_insert_ne by done].
    rewrite !lookup_insert_ne by done. by rewrite lookup_insert_eq. }
  assert (Hc : rs_stateCache (after run w) = rs_stateCache w).
  { subst run. unfold copyData, after. unfold_monad. by rewrite Hg. }
  split; [done|split; [done|]].
  intros cache Hcache Hrec Hid Hcons.
  specialize (Hcons cache (mTarget this) (mBufferId this)).
  rewrite Hc, Hb in Hcons. specialize (Hcons Hcache Hrec). congruence.
Qed.

(** ** Rebinding keeps the buffer's operations on its own storage *)

Lemma consistent_after_rebind target buffer w cache w' :
  rs_stateCache w = Some cache →
  cache_consistent w →
  rs_stateCache w' = rs_stateCache (after (bindGLBuffer target buffer) w) →
  gl_bound w' = gl_bound (after (bindGLBuffer target buffer) w) →
  cache_consistent w'.
Proof.
  intros Hc Hcons Hc' Hb'.
  apply (cache_consistent_ext (after (bindGLBuffer target buffer) w)); try done.
  by apply (bindGLBuffer_consistent _ _ _ cache).
Qed.

Ltac own_buffer Hc Hcons :=
  unfold events_of, after; unfold_monad; rewrite Hc; simpl;
  match goal with
  | |- context [bool_decide (?c !! ?t = Some ?b)] =>
      let Eb := fresh "Eb" in
      destruct (bool_decide (c !! t = Some b)) eqn:Eb;
      [apply bool_decide_eq_true in Eb; apply (Hcons c) in Eb; [|done]|]
  end.

(** X11.  If the cache agrees with the driver, [writeData] keeps it so,
    and every driver data call it makes reaches the buffer's own storage,
    whatever buffer was bound to the target before. *)
Theorem writeData_reaches_own_buffer this offset length pSource discard w cache :
  rs_stateCache w = Some cache →
  cache_consistent w →
  let run := writeData this offset length pSource discard in
  cache_consistent (after run w) ∧
  Forall (eq (mBufferId this)) (acted_on (gl_bound w) (events_of run w)).
Proof.
  intros Hc Hcons run. subst run. split.
  - apply (consistent_after_rebind (mTarget this) (mBufferId this) w cache);
      try done; unfold after, writeData; unfold_monad; rewrite Hc; simpl;
      destruct (bool_decide (cache !! _ = _)), (bool_decide (offset = 0)),
        (bool_decide (length = _)), discard; done.
  - unfold writeData. own_buffer Hc Hcons;
      destruct (bool_decide (offset = 0)), (bool_decide (length = _)), discard;
      simpl; rewrite <- ?app_assoc, drop_app_length; simpl;
      rewrite ?lookup_insert_eq, ?Eb; simpl; repeat constructor.
Qed.

(** X12.  If the cache agrees with the driver, [lockImpl] keeps it so on
    every path, whether or not the mapping succeeds, and every driver data
    call it makes reaches the buffer's own storage. *)
Theorem lockImpl_reaches_own_buffer this offset length options w cache :
  rs_stateCache w = Some cache →
  cache_consistent w →
  let run := lockImpl this offset length options in
  cache_consistent (after run w) ∧
  Forall (eq (mBufferId this)) (acted_on (gl_bound w) (events_of run w)).
Proof.
  intros Hc Hcons run. subst run. split.
  - apply (consistent_after_rebind (mTarget this) (mBufferId this) w cache);
      try done; unfold after, lockImpl; unfold_monad; rewrite Hc; simpl;
      destruct (bool_decide (cache !! _ = _)), OGRE_NO_GLES3_SUPPORT,
        (rs_extensions w "GL_EXT_map_buffer_range") eqn:Er,
        (rs_extensions w "GL_OES_mapbuffer") eqn:Eo; simpl;
      repeat (first [rewrite Er | rewrite Eo]; simpl);
      try (destruct (bool_decide (options = HBL_DISCARD) || _); simpl);
      try split_nonzero; done.
  - unfold lockImpl. own_buffer Hc Hcons;
      destruct OGRE_NO_GLES3_SUPPORT,
        (rs_extensions w "GL_EXT_map_buffer_range") eqn:Er,
        (rs_extensions w "GL_OES_mapbuffer") eqn:Eo; simpl;
      repeat (first [rewrite Er | rewrite Eo]; simpl);
      try (destruct (bool_decide (options = HBL_DISCARD) || _); simpl);
      try split_nonzero; simpl;
      rewrite <- ?app_assoc, drop_app_length; simpl;
      rewrite ?lookup_insert_eq, ?Eb; simpl; repeat constructor.
Qed.

(** X13.  If the cache agrees with the driver, [unlockImpl] keeps it so,
    whether or not the unmap reports corruption, and its flush and unmap
    reach the buffer's own storage. *)
Theorem unlockImpl_reaches_own_buffer this lockSize w cache :
  rs_stateCache w = Some cache →
  cache_consistent w →
  let run := unlockImpl this lockSize in
  cache_consistent (after run w) ∧
  Forall (eq (mBufferId this)) (acted_on (gl_bound w) (events_of run w)).
Proof.
  intros Hc Hcons run. subst run. split.
  - apply (consistent_after_rebind (mTarget this) (mBufferId this) w cache);
      try done; unfold after, unlockImpl; unfold_monad; rewrite Hc; simpl;
      destruct (bool_decide (cache !! _ = _)), OGRE_NO_GLES3_SUPPORT,
        (rs_extensions w "GL_EXT_map_buffer_range") eqn:Er,
        (rs_extensions w "GL_OES_mapbuffer") eqn:Eo,
        (nonzero (Z.land (mUsage this) HBU_WRITE_ONLY)); simpl;
      repeat (first [rewrite Er | rewrite Eo]; simpl);
      try split_nonzero; done.
  - unfold unlockImpl. own_buffer Hc Hcons;
      destruct OGRE_NO_GLES3_SUPPORT,
        (rs_extensions w "GL_EXT_map_buffer_range") eqn:Er,
        (rs_extensions w "GL_OES_mapbuffer") eqn:Eo,
        (nonzero (Z.land (mUsage this) HBU_WRITE_ONLY)); simpl;
      repeat (first [rewrite Er | rewrite Eo]; simpl);
      try split_nonzero; simpl;
      rewrite <- ?app_assoc, ?drop_app_length; simpl;
      rewrite ?lookup_insert_eq, ?Eb; simpl; repeat constructor.
Qed.

(** ** lock followed by unlock *)

(** X10.  On the range-mapping path, a lock followed by the matching
    unlock binds the buffer at most once: the unlock's rebind is answered
    by the state cache without a driver call, and the driver sees the map,
    the flush of a write-oriented buffer and the unmap in that order.  When
    the driver returns no mapping the sequence stops at the mapping error
    and nothing is flushed or unmapped. *)
Theorem lock_then_unlock_binds_once this offset length options lockSize w cache :
  rs_stateCache w = Some cache →
  has_range_mapping w = true →
  let run := lock_then_unlock this offset length options lockSize in
  let before_map :=
    trace w ++ rebind_events cache (mTarget this) (mBufferId this) in
  let map_call :=
    glMapBufferRangeEXT (mTarget this) offset length
      (spec_range_access (mUsage this) options) in
  let pBuffer := gl_driver w before_map map_call in
  (pBuffer ≠ NULL →
   trace (after run w) =
     before_map ++ [GL map_call] ++
     [Cache_bindGLBuffer (mTarget this) (mBufferId this)] ++
     spec_flush_events this lockSize w ++
     [GL (glUnmapBufferOES (mTarget this))]) ∧
  (pBuffer = NULL →
   outcome run w = inl MappingError ∧
   trace (after run w) = before_map ++ [GL map_call]).
Proof.
  intros Hc Hr. simpl.
  unfold lock_then_unlock, outcome, after, lockImpl, unlockImpl, rebind_events,
    spec_flush_events, has_range_mapping, MappingError, NULL in *.
  unfold_monad. rewrite Hc. simpl.
  destruct (bool_decide (cache !! mTarget this = Some (mBufferId this))) eqn:Eb;
    destruct OGRE_NO_GLES3_SUPPORT; simpl in *; rewrite ?Hr; simpl;
    rewrite range_access_wording, <- ?app_assoc; simpl;
    (split; intros Hp;
     [apply nonzero_true in Hp | apply nonzero_false in Hp];
     rewrite Hp; simpl; [|by rewrite <- ?app_assoc]);
    rewrite ?Hc; simpl; rewrite ?Eb, ?lookup_insert_eq, ?bool_decide_eq_true_2 by done;
    simpl; rewrite ?Hr; simpl; rewrite ?nonzero_write_oriented;
    destruct (bool_decide (write_oriented _)); simpl;
    try split_nonzero; simpl; by rewrite <- ?app_assoc.
Qed.

End MoreProperties.

(** ** The further properties at work *)

Lemma fresh_world_consistent : cache_consistent fresh_world.
Proof. intros cache t b [= <-]. by rewrite lookup_empty. Qed.

Section MoreOnGLES2.
#[local] Existing Instance gles2_build.

(** Usage 0x85 agrees with static (1) on the discardable and static bits. *)
Lemma getGLUsage_depends_on_two_bits_witness :
  Z.land 0x85 HBU_DISCARDABLE = Z.land HBU_STATIC HBU_DISCARDABLE ∧
  Z.land 0x85 HBU_STATIC = Z.land HBU_STATIC HBU_STATIC ∧
  getGLUsage 0x85 = GL_STATIC_DRAW ∧
  Z.land HBU_WRITE_ONLY HBU_DISCARDABLE = 0 ∧
  Z.land HBU_WRITE_ONLY HBU_STATIC = 0 ∧
  getGLUsage (Z.lor HBU_STATIC HBU_WRITE_ONLY) = GL_STATIC_DRAW.
Proof.
  destruct getGLUsage_depends_on_two_bits as (Hgen & Hwo).
  split; [reflexivity|split; [reflexivity|split; [|split; [reflexivity|split]]]].
  - etrans; [apply (Hgen 0x85 HBU_STATIC)|]; reflexivity.
  - reflexivity.
  - etrans; [apply (Hwo eq_refl eq_refl HBU_STATIC)|]; reflexivity.
Defined.

Lemma new_buffer_without_name_witness :
  let create := new_GLES2HardwareBuffer GL_ARRAY_BUFFER 16 4 in
  gl_driver exhausted_world (trace exhausted_world) (glGenBuffers 1) = 0 ∧
  outcome create exhausted_world = inl AllocationError ∧
  trace (after create exhausted_world) = [GL (glGenBuffers 1)].
Proof.
  intros create.
  destruct (new_buffer_without_name GL_ARRAY_BUFFER 16 4 exhausted_world eq_refl)
    as (Ho & Ht & _).
  split; [reflexivity|split; [exact Ho|etrans; [exact Ht|reflexivity]]].
Defined.

Lemma new_buffer_reserves_storage_witness :
  let create := new_GLES2HardwareBuffer GL_ARRAY_BUFFER 16 4 in
  rs_stateCache fresh_world = Some ∅ ∧
  gl_driver fresh_world (trace fresh_world) (glGenBuffers 1) ≠ 0 ∧
  outcome create fresh_world = inr (sample_buffer 4) ∧
  trace (after create fresh_world) =
    [GL (glGenBuffers 1); Cache_bindGLBuffer GL_ARRAY_BUFFER 1;
     GL (glBindBuffer GL_ARRAY_BUFFER 1);
     GL (glBufferData GL_ARRAY_BUFFER 16 NULL GL_DYNAMIC_DRAW)] ∧
  gl_bound (after create fresh_world) !! GL_ARRAY_BUFFER = Some 1.
Proof.
  intros create.
  assert (Hid : gl_driver fresh_world (trace fresh_world) (glGenBuffers 1) ≠ 0)
    by discriminate.
  destruct (new_buffer_reserves_storage GL_ARRAY_BUFFER 16 4 fresh_world ∅ eq_refl Hid)
    as (Ho & Ht & _ & Hb).
  split; [reflexivity|split; [exact Hid|split; [|split]]].
  - etrans; [exact Ho|reflexivity].
  - etrans; [exact Ht|reflexivity].
  - etrans; [exact (Hb fresh_world_consistent)|reflexivity].
Defined.

Lemma lockImpl_legacy_path_witness :
  rs_stateCache legacy_world = Some ∅ ∧
  has_range_mapping legacy_world = false ∧
  rs_extensions legacy_world "GL_OES_mapbuffer" = true ∧
  trace (after (lockImpl (sample_buffer 4) 4 8 HBL_DISCARD) legacy_world) =
    [Cache_bindGLBuffer GL_ARRAY_BUFFER 1; GL (glBindBuffer GL_ARRAY_BUFFER 1);
     GL (glBufferData GL_ARRAY_BUFFER 16 NULL GL_DYNAMIC_DRAW);
     GL (glMapBufferOES GL_ARRAY_BUFFER GL_WRITE_ONLY_OES)] ∧
  outcome (lockImpl (sample_buffer 4) 4 8 HBL_DISCARD) legacy_world = inr 4100 ∧
  ptr_add 4096 (2 ^ 64 - 1) = 4095.
Proof.
  assert (Hr : has_range_mapping legacy_world = false) by reflexivity.
  assert (Ho : rs_extensions legacy_world "GL_OES_mapbuffer" = true) by reflexivity.
  destruct (lockImpl_legacy_path (sample_buffer 4) 4 8 HBL_DISCARD legacy_world ∅
              eq_refl Hr Ho) as (Ht & Hp & _).
  split; [reflexivity|split; [exact Hr|split; [exact Ho|]]].
  split; [|split]; try (etrans; [eassumption|reflexivity]).
  reflexivity.
Defined.

Lemma lockImpl_without_mapping_witness :
  rs_stateCache bare_world = Some ∅ ∧
  has_any_mapping bare_world = false ∧
  outcome (lockImpl (sample_buffer 4) 0 16 HBL_NORMAL) bare_world = inl MappingError ∧
  trace (after (lockImpl (sample_buffer 4) 0 16 HBL_NORMAL) bare_world) =
    [Cache_bindGLBuffer GL_ARRAY_BUFFER 1; GL (glBindBuffer GL_ARRAY_BUFFER 1)].
Proof.
  assert (Ha : has_any_mapping bare_world = false) by reflexivity.
  destruct (lockImpl_without_mapping (sample_buffer 4) 0 16 HBL_NORMAL bare_world ∅
              eq_refl Ha) as (Ho & Ht).
  split; [reflexivity|split; [exact Ha|split; [exact Ho|]]].
  etrans; [exact Ht|reflexivity].
Defined.



Lemma writeData_whole_buffer_ignores_discard_witness :
  mSizeInBytes (sample_buffer 4) = 16 ∧
  writeData (sample_buffer 4) 0 16 8192 true fresh_world =
  writeData (sample_buffer 4) 0 16 8192 false fresh_world.
Proof.
  split; [reflexivity|].
  apply (writeData_whole_buffer_ignores_discard (sample_buffer 4) 0 16 8192 fresh_world);
    reflexivity.
Defined.

Lemma lock_then_unlock_binds_once_witness :
  let run := lock_then_unlock (sample_buffer 4) 0 16 HBL_DISCARD 16 in
  rs_stateCache fresh_world = Some ∅ ∧
  has_range_mapping fresh_world = true ∧
  trace (after run fresh_world) =
    [Cache_bindGLBuffer GL_ARRAY_BUFFER 1; GL (glBindBuffer GL_ARRAY_BUFFER 1);
     GL (glMapBufferRangeEXT GL_ARRAY_BUFFER 0 16 0x16);
     Cache_bindGLBuffer GL_ARRAY_BUFFER 1;
     GL (glFlushMappedBufferRangeEXT GL_ARRAY_BUFFER 0 16);
     GL (glUnmapBufferOES GL_ARRAY_BUFFER)].
Proof.
  intros run.
  assert (Hr : has_range_mapping fresh_world = true) by reflexivity.
  destruct (lock_then_unlock_binds_once (sample_buffer 4) 0 16 HBL_DISCARD 16
              fresh_world ∅ eq_refl Hr) as (Hlive & _).
  split; [reflexivity|split; [exact Hr|]].
  etrans; [apply Hlive; discriminate|reflexivity].
Defined.

Lemma writeData_reaches_own_buffer_witness :
  let run := writeData (sample_buffer 4) 4 8 8192 true in
  cache_consistent fresh_world ∧
  cache_consistent (after run fresh_world) ∧
  Forall (eq 1) (acted_on (gl_bound fresh_world) (events_of run fresh_world)).
Proof.
  split; [exact fresh_world_consistent|].
  exact (writeData_reaches_own_buffer (sample_buffer 4) 4 8 8192 true fresh_world ∅
           eq_refl fresh_world_consistent).
Defined.

Lemma lockImpl_reaches_own_buffer_witness :
  let run := lockImpl (sample_buffer 4) 0 16 HBL_DISCARD in
  cache_consistent fresh_world ∧
  cache_consistent (after run fresh_world) ∧
  Forall (eq 1) (acted_on (gl_bound fresh_world) (events_of run fresh_world)).
Proof.
  split; [exact fresh_world_consistent|].
  exact (lockImpl_reaches_own_buffer (sample_buffer 4) 0 16 HBL_DISCARD fresh_world ∅
           eq_refl fresh_world_consistent).
Defined.

Lemma unlockImpl_reaches_own_buffer_witness :
  let run := unlockImpl (sample_buffer 4) 16 in
  cache_consistent fresh_world ∧
  cache_consistent (after run fresh_world) ∧
  Forall (eq 1) (acted_on (gl_bound fresh_world) (events_of run fresh_world)).
Proof.
  split; [exact fresh_world_consistent|].
  exact (unlockImpl_reaches_own_buffer (sample_buffer 4) 16 fresh_world ∅
           eq_refl fresh_world_consistent).
Defined.

End MoreOnGLES2.

Section MoreOnGLES3.
#[local] Existing Instance gles3_build.

Lemma copyData_bypasses_cache_witness :
  let w := bound_world (sample_driver 4096 1) in
  let run := copyData (sample_buffer 0) 2 0 0 16 false in
  OGRE_NO_GLES3_SUPPORT = false ∧
  rs_stateCache w = Some {[ GL_ARRAY_BUFFER := 1 ]} ∧
  rs_stateCache (after run w) = rs_stateCache w ∧
  gl_bound (after run w) !! GL_ARRAY_BUFFER = Some 0 ∧
  ¬ cache_consistent (after run w).
Proof.
  intros w run.
  assert (Hg : OGRE_NO_GLES3_SUPPORT = false) by reflexivity.
  destruct (copyData_bypasses_cache (sample_buffer 0) 2 0 0 16 false w Hg)
    as (Hc & Hb & Hbroken).
  split; [exact Hg|split; [reflexivity|split; [exact Hc|split; [exact Hb|]]]].
  apply (Hbroken {[ GL_ARRAY_BUFFER := 1 ]}); [reflexivity|reflexivity|discriminate].
Defined.

End MoreOnGLES3.
